(** * Verification of the package assembler and of the runtime client contract

    The development embeds [graphql_sdk_gen/generators/init_file.py]
    ([InitFileGenerator]) together with the parts of the generated client
    that its tests exercise ([generate_union_annotation], [execute],
    [get_data]), and proves or refutes the properties the specification
    states about them.

    Layout: the embedding comes first (modules [PyStr], [PyAst], [Store],
    [InitFile], [Codegen], [BaseClient]), the properties afterwards. *)

From stdpp Require Import base option list gmap sorting strings.
From Stdlib Require Import ZArith NArith Lia.

Set Warnings "-register-all".

Local Open Scope Z_scope.

(* ===================================================================== *)
(** ** Python strings and their order *)
(* ===================================================================== *)

Module PyStr.

(** A Python [str] is a sequence of code points and [<=] on [str] compares
    them lexicographically.  A [str] is represented here by its UTF-8
    encoding; byte-wise lexicographic comparison of UTF-8 text coincides
    with code-point comparison, so [String.leb] is Python's [<=]. *)
Definition str_le (s1 s2 : string) : Prop := String.leb s1 s2 = true.

#[global] Instance str_le_dec : RelDecision str_le.
Proof. intros s1 s2. unfold str_le. apply _. Defined.

(** [list.sort()] with the default key: the sorted rearrangement of the
    list.  Python's sort is stable, and so is this merge sort; for [str]
    keys, where equal keys are equal values, every sorting algorithm
    returns the same list. *)
Definition sort (l : list string) : list string := merge_sort str_le l.

End PyStr.

(* ===================================================================== *)
(** ** The fragment of Python's [ast] that the generators build *)
(* ===================================================================== *)

Module PyAst.

(** [ast.alias(name)], [asname] left at its default. *)
Record alias := mk_alias { name : string }.

(** Expressions: [ast.Name], [ast.Constant] (of a [str]), [ast.List],
    [ast.Subscript] and [ast.Tuple]. *)
Inductive expr :=
| Name (id : string)
| Constant (value : string)
| List (elts : list expr)
| Subscript (value : expr) (slice : expr)
| Tuple (elts : list expr).

(** Statements: [ast.ImportFrom] and [ast.Assign]. *)
Inductive stmt :=
| ImportFrom (module : string) (names : list alias) (level : Z)
| Assign (targets : list expr) (value : expr) (lineno : Z).

End PyAst.

(* ===================================================================== *)
(** ** Object store: Python list objects with identity *)
(* ===================================================================== *)

Module Store.
Import PyAst.

(** A reference to a list object. *)
Definition ref := positive.

(** The store maps the reference of every allocated list object to its
    current contents; [next] is the first unused reference. *)
Record heap := mk_heap { objs : gmap ref (list stmt); next : ref }.

Definition empty_heap : heap := {| objs := ∅; next := 1%positive |}.

(** Exceptions the embedded code can raise: reading an attribute that an
    object of class [cls] does not have. *)
Inductive exn :=
| AttributeError (cls attr : string).

(** Computations thread the store and may raise; the store reached when an
    exception is raised is kept. *)
Definition M (A : Type) : Type := heap → (exn + A) * heap.

Definition ret {A} (a : A) : M A := λ h, (inr a, h).

Definition bind {A B} (m : M A) (k : A → M B) : M B :=
  λ h, match m h with
       | (inl e, h') => (inl e, h')
       | (inr a, h') => k a h'
       end.

Definition raise {A} (e : exn) : M A := λ h, (inl e, h).

(** [x ← m; k] and [m;; k] sequence two computations. *)
#[global] Instance M_ret : MRet M := @ret.
#[global] Instance M_bind : MBind M := λ A B k m, bind m k.

(** [[]]: a fresh, empty list object. *)
Definition new_list : M ref :=
  λ h, (inr (next h),
        {| objs := <[next h := []]> (objs h); next := Pos.succ (next h) |}).

(** Contents of a list object (a reference that was never allocated does
    not occur in a Python program; it reads as the empty list). *)
Definition contents (h : heap) (r : ref) : list stmt := default [] (objs h !! r).

Definition read (r : ref) : M (list stmt) := λ h, (inr (contents h r), h).

(** [r.append(x)]: in-place update, visible through every alias of [r]. *)
Definition append (r : ref) (x : stmt) : M unit :=
  λ h, (inr tt, {| objs := <[r := contents h r ++ [x]]> (objs h); next := next h |}).

(** [len(r)] *)
Definition len (r : ref) : M Z := λ h, (inr (Z.of_nat (length (contents h r))), h).

End Store.

(* ===================================================================== *)
(** ** [generators/init_file.py] *)
(* ===================================================================== *)

Module InitFile.
Import PyStr PyAst Store.

(** Modelled from the spec: [generate_import_from] of the [utils] module,
    which is not among the sources.  It renders an ImportSpec
    [{names, from_module, relative_level}] as the statement
    [from <from_> import <names>]: an [ast.ImportFrom] with one [alias] per
    requested name, in the order given. *)
Definition generate_import_from (names : list string) (from_ : string) (level : Z)
  : stmt :=
  ImportFrom from_ (map mk_alias names) level.

(** [class InitFileGenerator]: the field [imports] holds a reference to a
    list object. *)
Record InitFileGenerator := mk_gen { imports : ref }.

(** [ast.Module(body, type_ignores)]: [body] is a reference, because the
    code passes the generator's own list object; [type_ignores] is a fresh
    list that nothing else refers to. *)
Record Module := mk_module { body : ref; type_ignores : list unit }.

(** [__init__]: [self.imports = []] *)
Definition init : M InitFileGenerator :=
  r ← new_list; mret (mk_gen r).

(** [add_import(names, from_, level)] *)
Definition add_import (self : InitFileGenerator)
    (names : list string) (from_ : string) (level : Z) : M unit :=
  append (imports self) (generate_import_from names from_ level).

(** [import_.names]: a field of [ImportFrom]; an [Assign] node has no such
    attribute. *)
Definition get_names (import_ : stmt) : M (list alias) :=
  match import_ with
  | ImportFrom _ names _ => mret names
  | Assign _ _ _ => raise (AttributeError "Assign" "names")
  end.

(** The loop
    [for import_ in self.imports:
         constants_names.extend([n.name for n in import_.names])]
    over the elements of [self.imports]; [constants_names] is a local list. *)
Fixpoint collect_names (imps : list stmt) (constants_names : list string)
  : M (list string) :=
  match imps with
  | [] => mret constants_names
  | import_ :: rest =>
      names ← get_names import_;
      collect_names rest (constants_names ++ map name names)
  end.

(** [generate()] *)
Definition generate (self : InitFileGenerator) : M Module :=
  let module := {| body := imports self; type_ignores := [] |} in
  imps ← read (imports self);
  match imps with
  | [] => mret module
  | _ :: _ =>
      constants_names ← collect_names imps [];
      let constants_names := sort constants_names in
      n ← len (imports self);
      append (body module)
        (Assign [Name "__all__"]
                (List (map Constant constants_names))
                (n + 1));;
      mret module
  end.

(** *** Observing a generated module *)

(** The statements of a module, read through its [body] reference. *)
Definition module_body (h : heap) (m : Module) : list stmt := contents h (body m).

(** The string constants of a list display. *)
Definition constant_values (elts : list expr) : list string :=
  omap (λ e, match e with Constant v => Some v | _ => None end) elts.

(** The name list of a statement [__all__ = [...]], if it is one. *)
Definition dunder_all_of (s : stmt) : option (list string) :=
  match s with
  | Assign [Name id] (List elts) _ =>
      if String.eqb id "__all__" then Some (constant_values elts) else None
  | _ => None
  end.

(** Every [__all__] name list of a module body, in order of appearance. *)
Definition dunder_alls (stmts : list stmt) : list (list string) :=
  omap dunder_all_of stmts.

(** The import statements of a module body. *)
Definition is_import (s : stmt) : bool :=
  match s with ImportFrom _ _ _ => true | Assign _ _ _ => false end.

Definition import_stmts (stmts : list stmt) : list stmt :=
  List.filter is_import stmts.

(** *** A generation run *)

(** One [add_import] call. *)
Record call := mk_call { c_names : list string; c_from : string; c_level : Z }.

Fixpoint add_imports (self : InitFileGenerator) (cs : list call) : M unit :=
  match cs with
  | [] => mret tt
  | c :: rest =>
      add_import self (c_names c) (c_from c) (c_level c);;
      add_imports self rest
  end.

(** A fresh generator that has received the calls [cs]. *)
Definition populated (cs : list call) : M InitFileGenerator :=
  self ← init; add_imports self cs;; mret self.

(** A run: a fresh generator, the calls [cs], then [generate()]. *)
Definition run (cs : list call) : M Module :=
  self ← populated cs; generate self.

(** A run in which [generate()] is called a second time. *)
Definition run_twice (cs : list call) : M (Module * Module) :=
  self ← populated cs;
  m1 ← generate self;
  m2 ← generate self;
  mret (m1, m2).

(** The statement one call adds. *)
Definition import_of (c : call) : stmt :=
  generate_import_from (c_names c) (c_from c) (c_level c).

(** The manifest of a run: the statements of the module [generate()]
    returns, or the exception the run raised. *)
Definition manifest (cs : list call) : exn + list stmt :=
  match run cs empty_heap with
  | (inr m, h) => inr (module_body h m)
  | (inl e, _) => inl e
  end.

(** All names requested by the calls, in call order. *)
Definition requested_names (cs : list call) : list string :=
  concat (map c_names cs).

(** The [__all__] assignment [generate()] builds for the calls [cs]. *)
Definition all_assign (cs : list call) : stmt :=
  Assign [Name "__all__"]
         (List (map Constant (sort (requested_names cs))))
         (Z.of_nat (length cs) + 1).

End InitFile.

(* ===================================================================== *)
(** ** [codegen]: union annotations *)
(* ===================================================================== *)

Module Codegen.
Import PyAst.

(** Modelled from the spec: the constants [OPTIONAL] and [UNION] of
    [client_generators/constants], which is not among the sources; they
    name the [Optional] and [UnionOf] nodes of a TypeExpression. *)
Definition OPTIONAL : string := "Optional".
Definition UNION : string := "Union".

(** Modelled from the spec: [generate_union_annotation] of [codegen], which
    is not among the sources (only [tests/codegen/test_generated_unions.py]
    is).  The annotation of a union-typed field is the subscript
    [Union[t1, ..., tn]] over the variants as given; a nullable field wraps
    it in one [Optional[...]] subscript. *)
Definition generate_union_annotation (types : list expr) (nullable : bool) : expr :=
  let result := Subscript (Name UNION) (Tuple types) in
  if nullable then Subscript (Name OPTIONAL) result else result.

(** *** Observing an annotation *)

(** The node is a subscript of the name [id]. *)
Definition is_subscript_of (id : string) (e : expr) : bool :=
  match e with
  | Subscript (Name id') _ => String.eqb id' id
  | _ => false
  end.

(** Number of [Optional] layers stacked directly on top of each other at
    the root of an annotation. *)
Fixpoint optional_layers (e : expr) : nat :=
  match e with
  | Subscript (Name id) slice =>
      if String.eqb id OPTIONAL then S (optional_layers slice) else O
  | _ => O
  end.

(** The node under the [Optional] layers. *)
Fixpoint under_optional (e : expr) : expr :=
  match e with
  | Subscript (Name id) slice =>
      if String.eqb id OPTIONAL then under_optional slice else e
  | _ => e
  end.

(** The variants of a [Union[...]] node. *)
Definition union_variants (e : expr) : option (list expr) :=
  match e with
  | Subscript (Name id) (Tuple elts) =>
      if String.eqb id UNION then Some elts else None
  | _ => None
  end.

End Codegen.

(* ===================================================================== *)
(** ** The runtime client: [execute] and [get_data] *)
(* ===================================================================== *)

Module BaseClient.

(** A Python [dict] with [str] keys, in insertion order; the keys of a
    [dict] are pairwise distinct. *)
Definition dict (V : Type) : Type := list (string * V).

(** [d.get(k)]: the value stored under [k]. *)
Fixpoint dict_get {V} (k : string) (d : dict V) : option V :=
  match d with
  | [] => None
  | (k', v) :: rest => if String.eqb k k' then Some v else dict_get k rest
  end.

(** *** Variables *)

(** Values passed as variables.  An optional argument or field has three
    states: absent ([VUnset], the [UNSET] marker), explicit null ([VNone])
    and present.  [VModel] is an input record (a [BaseModel] instance) with
    its fields; [VDict] a plain mapping. *)
Inductive value :=
| VUnset
| VNone
| VBool (b : bool)
| VInt (n : Z)
| VStr (s : string)
| VList (items : list value)
| VDict (entries : dict value)
| VModel (fields : dict value).

Definition is_unset (v : value) : bool :=
  match v with VUnset => true | _ => false end.

(** Modelled from the spec: the variable serialization of
    [AsyncBaseClient.execute] ([client_generators/dependencies/
    async_base_client.py] is not among the sources, only its tests are).
    A structural transform: entries whose value is absent are dropped from
    every mapping and every input record, at every nesting level, also
    inside list elements; input records become mappings; every other
    entry, an explicit null included, is kept. *)
Fixpoint strip (v : value) : value :=
  let strip_entries :=
    fix go (d : dict value) : dict value :=
      match d with
      | [] => []
      | (k, x) :: rest => if is_unset x then go rest else (k, strip x) :: go rest
      end in
  match v with
  | VList items => VList (map strip items)
  | VDict entries => VDict (strip_entries entries)
  | VModel fields => VDict (strip_entries fields)
  | _ => v
  end.

(** The entries of a mapping, stripped (the local function of [strip]). *)
Fixpoint strip_entries (d : dict value) : dict value :=
  match d with
  | [] => []
  | (k, x) :: rest =>
      if is_unset x then strip_entries rest else (k, strip x) :: strip_entries rest
  end.

(** The structured payload of one request. *)
Record payload := mk_payload { query : string; variables : dict value }.

(** Modelled from the spec: the payload that [execute(operation_text,
    variables)] sends, [{query: operation_text, variables: <serialized
    variables with absent entries stripped>}]. *)
Definition execute_payload (query : string) (variables : dict value) : payload :=
  {| query := query; variables := strip_entries variables |}.

(** *** Observing serialized variables *)

(** Some mapping or record inside [v], at any depth, has an entry whose
    value is absent. *)
Fixpoint has_unset_entry (v : value) : bool :=
  let in_entries :=
    fix go (d : dict value) : bool :=
      match d with
      | [] => false
      | (_, x) :: rest => is_unset x || has_unset_entry x || go rest
      end in
  match v with
  | VList items => existsb has_unset_entry items
  | VDict entries => in_entries entries
  | VModel fields => in_entries fields
  | _ => false
  end.

(** A position inside a value: a key of a mapping or record, or an index of
    a list. *)
Inductive step :=
| Key (k : string)
| Index (i : nat).

(** The value found by following a path of positions. *)
Fixpoint at_path (p : list step) (v : value) : option value :=
  match p with
  | [] => Some v
  | Key k :: p' =>
      match v with
      | VDict d | VModel d => dict_get k d ≫= at_path p'
      | _ => None
      end
  | Index i :: p' =>
      match v with
      | VList items => items !! i ≫= at_path p'
      | _ => None
      end
  end.

(** *** Responses *)

(** Parsed structured data (JSON). *)
Inductive json :=
| JNull
| JBool (b : bool)
| JNum (n : Z)
| JStr (s : string)
| JArr (items : list json)
| JObj (members : dict json).

(** The raw transport response: status code and body. *)
Record Response := mk_response { status_code : Z; content : string }.

(** The runtime errors of the client. *)
Inductive client_error :=
| HttpError (status_code : Z) (response : Response)
| InvalidResponseError (response : Response)
| GraphQLMultiError (errors : list json).

(** A 2xx status. *)
Definition is_success (response : Response) : bool :=
  (200 <=? status_code response) && (status_code response <=? 299).

(** The value under key [k] of a parsed body; a body that is not a mapping
    has no keys. *)
Definition member (k : string) (body : json) : option json :=
  match body with
  | JObj members => dict_get k members
  | _ => None
  end.

Section get_data.

(** The parser of the transport library: the structured data a body text
    denotes, or [None] when the text is not parseable. *)
Variable parse : string → option json.

(** Modelled from the spec: [AsyncBaseClient.get_data] (not among the
    sources, only its tests are).  A non-2xx response fails with
    [HttpError], before the payload is parsed; then the body is parsed and
    the call fails with [InvalidResponseError] if the body is not parseable
    or lacks a [data] key, and with [GraphQLMultiError], carrying all
    reported error entries, if the [errors] entry of the body is a list of
    one or more entries; otherwise the value under [data] is returned. *)
Definition get_data (response : Response) : client_error + json :=
  if negb (is_success response) then
    inl (HttpError (status_code response) response)
  else
    match parse (content response) with
    | None => inl (InvalidResponseError response)
    | Some body =>
        match member "data" body with
        | None => inl (InvalidResponseError response)
        | Some data =>
            match member "errors" body with
            | Some (JArr (e :: es)) => inl (GraphQLMultiError (e :: es))
            | _ => inr data
            end
        end
    end.

End get_data.

End BaseClient.

(* ===================================================================== *)
(** ** Using an [InitFileGenerator]: sequences of calls *)
(* ===================================================================== *)

Module Sessions.
Import PyAst Store InitFile.

(** One call on a generator: [add_import(...)] or [generate()]. *)
Inductive op :=
| Add (c : call)
| Generate.

(** The calls [ops] on one generator, in order; an exception ends the
    sequence. *)
Fixpoint exec (self : InitFileGenerator) (ops : list op) : M unit :=
  match ops with
  | [] => mret tt
  | Add c :: rest =>
      add_import self (c_names c) (c_from c) (c_level c);;
      exec self rest
  | Generate :: rest =>
      generate self;;
      exec self rest
  end.

(** What the list [self.imports] holds: nothing, import statements only,
    or some statement that is not an import. *)
Inductive phase :=
| Empty
| Filling
| Sealed.

Definition phase_of (imps : list stmt) : phase :=
  match imps with
  | [] => Empty
  | _ :: _ => if forallb is_import imps then Filling else Sealed
  end.

(** The sequences of calls that a generator in a given phase accepts. *)
Fixpoint allowed_from (p : phase) (ops : list op) : bool :=
  match ops with
  | [] => true
  | Add _ :: rest =>
      allowed_from (match p with Empty => Filling | _ => p end) rest
  | Generate :: rest =>
      match p with
      | Empty => allowed_from Empty rest
      | Filling => allowed_from Sealed rest
      | Sealed => false
      end
  end.

(** The calls [ops] on a fresh generator. *)
Definition session (ops : list op) : M unit :=
  self ← init; exec self ops.

(** Number of [generate()] calls in a sequence. *)
Fixpoint count_generate (ops : list op) : nat :=
  match ops with
  | [] => O
  | Add _ :: rest => count_generate rest
  | Generate :: rest => S (count_generate rest)
  end.

(** Number of [generate()] calls that come after the first [add_import]. *)
Fixpoint generates_after_add (ops : list op) : nat :=
  match ops with
  | [] => O
  | Add _ :: rest => count_generate rest
  | Generate :: rest => generates_after_add rest
  end.

(** The statements [generate()] appends to the import statements of the
    calls [cs]: none when there is no import, the [__all__] assignment
    otherwise. *)
Definition closing (cs : list call) : list stmt :=
  match cs with [] => [] | _ :: _ => [all_assign cs] end.

(** A fresh generator receives the calls [cs], [generate()] returns a
    module, and the generator then receives the calls [cs']; the result is
    the module returned in between. *)
Definition run_then_add (cs cs' : list call) : M Module :=
  self ← populated cs;
  m ← generate self;
  add_imports self cs';;
  mret m.

(** The calls of [cs] marked [b]. *)
Definition calls_of (b : bool) (cs : list (bool * call)) : list call :=
  map snd (List.filter (λ bc, Bool.eqb (fst bc) b) cs).

(** [add_import] calls spread over two generators: a call marked [true]
    goes to [g1], a call marked [false] to [g2]. *)
Fixpoint add_imports_to (g1 g2 : InitFileGenerator) (cs : list (bool * call))
  : M unit :=
  match cs with
  | [] => mret tt
  | (b, c) :: rest =>
      add_import (if b then g1 else g2) (c_names c) (c_from c) (c_level c);;
      add_imports_to g1 g2 rest
  end.

(** Two generators used side by side. *)
Definition run_two (cs : list (bool * call)) : M (Module * Module) :=
  g1 ← init;
  g2 ← init;
  add_imports_to g1 g2 cs;;
  m1 ← generate g1;
  m2 ← generate g2;
  mret (m1, m2).

End Sessions.

(* ===================================================================== *)
(** ** Observing serialized variables: input records *)
(* ===================================================================== *)

Module Serialized.
Import BaseClient.

(** Some input record (a [BaseModel] instance) occurs inside [v], at any
    depth. *)
Fixpoint has_model (v : value) : bool :=
  let in_entries :=
    fix go (d : dict value) : bool :=
      match d with
      | [] => false
      | (_, x) :: rest => has_model x || go rest
      end in
  match v with
  | VList items => existsb has_model items
  | VDict entries => in_entries entries
  | VModel _ => true
  | _ => false
  end.

End Serialized.

(* ===================================================================== *)
(** ** The expected client of [fragments_on_abstract_types] *)
(* ===================================================================== *)

Module Client.
Import BaseClient.

(** [gql(q)]: the operation text, as it is. *)
Definition gql (q : string) : string := q.

(** A text of several lines: the lines, joined by line feeds. *)
Definition newline : string := String (Ascii.ascii_of_nat 10) EmptyString.

Definition text (lines : list string) : string := String.concat newline lines.

(** The operation text of [query_with_fragment_on_sub_interface]. *)
Definition QUERY_WITH_FRAGMENT_ON_SUB_INTERFACE : string :=
  text
    [EmptyString;
     "            query queryWithFragmentOnSubInterface {";
     "              queryInterface {";
     "                __typename";
     "                ...fragmentA";
     "              }";
     "            }";
     EmptyString;
     "            fragment fragmentA on InterfaceA {";
     "              id";
     "              valueA";
     "            }";
     "            "].

(** The operation text of [query_with_fragment_on_sub_interface_with_inline_fragment]. *)
Definition QUERY_WITH_FRAGMENT_ON_SUB_INTERFACE_WITH_INLINE_FRAGMENT : string :=
  text
    [EmptyString;
     "            query queryWithFragmentOnSubInterfaceWithInlineFragment {";
     "              queryInterface {";
     "                __typename";
     "                ...fragmentAWithInlineFragment";
     "              }";
     "            }";
     EmptyString;
     "            fragment fragmentAWithInlineFragment on InterfaceA {";
     "              id";
     "              valueA";
     "              ... on TypeA {";
     "                another";
     "              }";
     "            }";
     "            "].

(** The operation text of [query_with_fragment_on_union_member]. *)
Definition QUERY_WITH_FRAGMENT_ON_UNION_MEMBER : string :=
  text
    [EmptyString;
     "            query queryWithFragmentOnUnionMember {";
     "              queryUnion {";
     "                __typename";
     "                ...fragmentB";
     "              }";
     "            }";
     EmptyString;
     "            fragment fragmentB on TypeB {";
     "              id";
     "              valueB";
     "            }";
     "            "].

(** A response answers with [data]: its status is 2xx, its body parses to a
    mapping with [data] under the key [data], and the [errors] entry of the
    body holds no error entry. *)
Definition answers (parse : string → option json) (response : Response)
    (data : json) : Prop :=
  is_success response = true ∧
  ∃ body, parse (content response) = Some body ∧
          member "data" body = Some data ∧
          ∀ e es, member "errors" body ≠ Some (JArr (e :: es)).

Section methods.

(** The parser of the transport library and the configured endpoint: the
    response it gives to a request payload. *)
Variable parse : string → option json.
Variable endpoint : payload → Response.

(** The generated result models, which are not among the sources, with the
    validation error of [model_validate] and [model_validate] of each model. *)
Variable ValidationError : Type.
Variable QueryWithFragmentOnSubInterface : Type.
Variable QueryWithFragmentOnSubInterfaceWithInlineFragment : Type.
Variable QueryWithFragmentOnUnionMember : Type.
Variable sub_interface_model_validate :
  json → ValidationError + QueryWithFragmentOnSubInterface.
Variable sub_interface_with_inline_fragment_model_validate :
  json → ValidationError + QueryWithFragmentOnSubInterfaceWithInlineFragment.
Variable union_member_model_validate :
  json → ValidationError + QueryWithFragmentOnUnionMember.

(** What a client method can raise: an error of the runtime client, or the
    validation error of the result model. *)
Inductive failure :=
| Raised (e : client_error)
| Invalid (v : ValidationError).

(** Modelled from the spec: [AsyncBaseClient.execute] (not among the
    sources): one request carrying the payload [{query, variables}], the
    variables serialized, to the endpoint; the raw response is returned. *)
Definition execute (query : string) (variables : dict value) : Response :=
  endpoint (execute_payload query variables).

(** [Client.query_with_fragment_on_sub_interface] *)
Definition query_with_fragment_on_sub_interface : failure + QueryWithFragmentOnSubInterface :=
  let query := gql QUERY_WITH_FRAGMENT_ON_SUB_INTERFACE in
  let variables : dict value := [] in
  let response := execute query variables in
  match get_data parse response with
  | inl e => inl (Raised e)
  | inr data =>
      match sub_interface_model_validate data with
      | inl v => inl (Invalid v)
      | inr model => inr model
      end
  end.

(** [Client.query_with_fragment_on_sub_interface_with_inline_fragment] *)
Definition query_with_fragment_on_sub_interface_with_inline_fragment : failure + QueryWithFragmentOnSubInterfaceWithInlineFragment :=
  let query := gql QUERY_WITH_FRAGMENT_ON_SUB_INTERFACE_WITH_INLINE_FRAGMENT in
  let variables : dict value := [] in
  let response := execute query variables in
  match get_data parse response with
  | inl e => inl (Raised e)
  | inr data =>
      match sub_interface_with_inline_fragment_model_validate data with
      | inl v => inl (Invalid v)
      | inr model => inr model
      end
  end.

(** [Client.query_with_fragment_on_union_member] *)
Definition query_with_fragment_on_union_member : failure + QueryWithFragmentOnUnionMember :=
  let query := gql QUERY_WITH_FRAGMENT_ON_UNION_MEMBER in
  let variables : dict value := [] in
  let response := execute query variables in
  match get_data parse response with
  | inl e => inl (Raised e)
  | inr data =>
      match union_member_model_validate data with
      | inl v => inl (Invalid v)
      | inr model => inr model
      end
  end.

End methods.

Arguments Raised {ValidationError} e.
Arguments Invalid {ValidationError} v.

(** The outcome [result] of a client method is the one that the response
    and the result model determine: a model exactly when the response
    answers with data that validates to it; an error of the runtime client
    exactly when [get_data] raises it; a validation error exactly when the
    response answers with data that does not validate. *)
Definition outcome_of {V T : Type} (parse : string → option json)
    (response : Response) (model_validate : json → V + T)
    (result : failure V + T) : Prop :=
  (∀ model, result = inr model ↔
            ∃ data, answers parse response data ∧ model_validate data = inr model) ∧
  (∀ e, result = inl (Raised e) ↔ get_data parse response = inl e) ∧
  (∀ v, result = inl (Invalid v) ↔
        ∃ data, answers parse response data ∧ model_validate data = inl v).

End Client.

(* ===================================================================== *)
(** * Properties *)
(* ===================================================================== *)

(** ** The order on names *)

Section str_order.
Import PyStr.

Lemma leb_cons a1 s1 a2 s2 :
  String.leb (String a1 s1) (String a2 s2) = true ↔
  (Ascii.N_of_ascii a1 < Ascii.N_of_ascii a2)%N ∨ (a1 = a2 ∧ String.leb s1 s2 = true).
Proof.
  unfold String.leb. simpl. unfold Ascii.compare.
  destruct (N.compare_spec (Ascii.N_of_ascii a1) (Ascii.N_of_ascii a2)) as [E|L|G].
  - assert (a1 = a2) as ->.
    { rewrite <- (Ascii.ascii_N_embedding a1), <- (Ascii.ascii_N_embedding a2).
      by rewrite E. }
    split; [by right | intros [?|[_ ?]]; [lia | done]].
  - split; [by left | done].
  - split; [done | intros [?|[-> _]]; lia].
Qed.

#[global] Instance str_le_trans : Transitive str_le.
Proof.
  unfold str_le. intros s1. induction s1 as [|a1 s1 IH]; intros [|a2 s2] [|a3 s3];
    try done.
  rewrite !leb_cons. intros [L12|[-> L12]] [L23|[-> L23]].
  - left; lia.
  - by left.
  - by left.
  - right. split; [done | by eapply IH].
Qed.

#[global] Instance str_le_total : Total str_le.
Proof. intros s1 s2. apply String.leb_total. Qed.

#[global] Instance str_le_antisymm : AntiSymm (=) str_le.
Proof. intros s1 s2. apply String.leb_antisym. Qed.

Lemma sort_sorted l : Sorted str_le (sort l).
Proof. apply (Sorted_merge_sort str_le). Qed.

Lemma sort_perm l : sort l ≡ₚ l.
Proof. apply (merge_sort_Permutation str_le). Qed.

(** The result of [sort] is the only sorted rearrangement of its input:
    every sorting procedure returns it. *)
Lemma sort_unique l l' : Sorted str_le l' → l' ≡ₚ l → l' = sort l.
Proof.
  intros S P. apply (Sorted_unique str_le); [done | apply sort_sorted |].
  by rewrite sort_perm.
Qed.

(** Sorting forgets the order of its input. *)
Lemma sort_of_perm l1 l2 : l1 ≡ₚ l2 → sort l1 = sort l2.
Proof.
  intros P. apply (Sorted_unique str_le); try apply sort_sorted.
  by rewrite !sort_perm.
Qed.

End str_order.

(** ** The package assembler *)

Section init_file.
Import PyStr PyAst Store InitFile.

Lemma bind_run {A B} (m : M A) (k : A → M B) h :
  (m ≫= k) h = match m h with
               | (inl e, h') => (inl e, h')
               | (inr a, h') => k a h'
               end.
Proof. reflexivity. Qed.

Lemma contents_append r x h :
  contents (append r x h).2 r = contents h r ++ [x].
Proof. unfold append, contents. simpl. by rewrite lookup_insert_eq. Qed.

Lemma add_imports_run self cs h :
  ∃ h', add_imports self cs h = (inr tt, h') ∧
        contents h' (imports self) = contents h (imports self) ++ map import_of cs.
Proof.
  revert h. induction cs as [|c cs IH]; intros h; simpl.
  - exists h. by rewrite app_nil_r.
  - rewrite bind_run. unfold add_import.
    destruct (IH (append (imports self) (import_of c) h).2) as (h' & E & C).
    exists h'. split; [exact E|].
    by rewrite C, contents_append, <- app_assoc.
Qed.

(** A fresh generator that received the calls [cs] holds their import
    statements, in call order. *)
Lemma populated_run cs :
  ∃ self h, populated cs empty_heap = (inr self, h) ∧
            contents h (imports self) = map import_of cs.
Proof.
  unfold populated, init. rewrite !bind_run. simpl.
  set (h0 := {| objs := _; next := _ |}).
  destruct (add_imports_run (mk_gen 1%positive) cs h0) as (h' & E & C).
  exists (mk_gen 1%positive), h'. rewrite bind_run, E. split; [done|].
  by rewrite C.
Qed.

Lemma collect_names_imports cs acc h :
  collect_names (map import_of cs) acc h = (inr (acc ++ requested_names cs), h).
Proof.
  revert acc. induction cs as [|c cs IH]; intros acc; simpl.
  - by rewrite app_nil_r.
  - rewrite bind_run. simpl. rewrite IH. unfold requested_names. simpl.
    rewrite map_map. simpl. by rewrite map_id, app_assoc.
Qed.

(** The loop raises as soon as it meets a statement that is not an import. *)
Lemma collect_names_raises imps acc h :
  Exists (λ s, is_import s = false) imps →
  collect_names imps acc h = (inl (AttributeError "Assign" "names"), h).
Proof.
  intros E. revert acc. induction E as [s imps Hs|s imps E IH]; intros acc; simpl.
  - by destruct s.
  - rewrite bind_run. destruct s; simpl; [apply IH | done].
Qed.

Lemma generate_empty self h :
  contents h (imports self) = [] →
  generate self h = (inr {| body := imports self; type_ignores := [] |}, h).
Proof. intros E. unfold generate. rewrite bind_run. simpl. by rewrite E. Qed.

Lemma generate_imports self cs h :
  cs ≠ [] →
  contents h (imports self) = map import_of cs →
  generate self h =
    (inr {| body := imports self; type_ignores := [] |},
     {| objs := <[imports self := map import_of cs ++ [all_assign cs]]> (objs h);
        next := next h |}).
Proof.
  intros Hne E. unfold generate. rewrite bind_run. simpl. rewrite E.
  destruct cs as [|c cs]; [done|].
  change (map import_of (c :: cs)) with (import_of c :: map import_of cs) at 1.
  cbv beta iota. rewrite bind_run, collect_names_imports. rewrite bind_run. unfold len. rewrite E.
  rewrite bind_run. unfold append. rewrite E. simpl.
  by rewrite length_map.
Qed.

Lemma generate_raises self h :
  Exists (λ s, is_import s = false) (contents h (imports self)) →
  generate self h = (inl (AttributeError "Assign" "names"), h).
Proof.
  intros E. unfold generate. rewrite bind_run. simpl.
  destruct (contents h (imports self)) as [|s imps] eqn:C; [by inversion E|].
  rewrite bind_run. by rewrite (collect_names_raises _ _ _ E).
Qed.

(** The manifest of a run: the import statements in call order, followed,
    when there is at least one, by the [__all__] assignment. *)
Lemma manifest_run cs :
  manifest cs =
    inr (map import_of cs ++ match cs with [] => [] | _ :: _ => [all_assign cs] end).
Proof.
  unfold manifest, run. rewrite bind_run.
  destruct (populated_run cs) as (self & h & -> & C).
  destruct cs as [|c cs].
  - rewrite generate_empty by done. unfold module_body. simpl. by rewrite C.
  - rewrite (generate_imports self (c :: cs)) by done.
    unfold module_body, contents. simpl. by rewrite lookup_insert_eq.
Qed.

Lemma import_stmts_imports cs : import_stmts (map import_of cs) = map import_of cs.
Proof. induction cs as [|c cs IH]; simpl; [done | by rewrite IH]. Qed.

Lemma dunder_alls_imports cs : dunder_alls (map import_of cs) = [].
Proof. induction cs as [|c cs IH]; simpl; done. Qed.

Lemma constant_values_constants l : constant_values (map Constant l) = l.
Proof. induction l as [|x l IH]; simpl; [done | by rewrite IH]. Qed.

Lemma dunder_alls_manifest cs :
  dunder_alls (map import_of cs ++ [all_assign cs]) = [sort (requested_names cs)].
Proof.
  pose proof (dunder_alls_imports cs) as E. unfold dunder_alls in *.
  rewrite omap_app, E. simpl. by rewrite constant_values_constants.
Qed.

Lemma requested_names_perm cs1 cs2 :
  cs1 ≡ₚ cs2 → requested_names cs1 ≡ₚ requested_names cs2.
Proof.
  unfold requested_names. induction 1 as [|c l1 l2 _ IH|c1 c2 l|l1 l2 l3 _ IH1 _ IH2];
    simpl.
  - done.
  - by rewrite IH.
  - rewrite !app_assoc. f_equiv. apply Permutation_app_comm.
  - by rewrite IH1.
Qed.

End init_file.

Section init_file_claims.
Import PyStr PyAst Store InitFile.

(** C1 (as stated) fails: two modules exporting the same name [A] do not
    make [generate()] raise; the run returns a module whose [__all__] list
    holds [A] twice. *)
Lemma C1_duplicate_export_counterexample :
  manifest [mk_call ["A"] "m1" 1; mk_call ["A"] "m2" 1] =
    inr [ImportFrom "m1" [mk_alias "A"] 1;
         ImportFrom "m2" [mk_alias "A"] 1;
         Assign [Name "__all__"] (List [Constant "A"; Constant "A"]) 3]
  ∧ dunder_alls [ImportFrom "m1" [mk_alias "A"] 1;
                 ImportFrom "m2" [mk_alias "A"] 1;
                 Assign [Name "__all__"] (List [Constant "A"; Constant "A"]) 3]
    = [["A"; "A"]]
  ∧ ¬ NoDup ["A"; "A"].
Proof.
  split; [by vm_compute|]. split; [by vm_compute|].
  rewrite NoDup_cons. intros [H _]. apply H. by left.
Qed.

(** C1 (amended): for every sequence of [add_import] calls, [generate()]
    returns a module and raises nothing.  When at least one call was made,
    the module holds exactly one [__all__] list, the sorted list of all
    requested names; it is a rearrangement of the requested names with their
    multiplicities, so every name occurs in it as often as it was
    requested (a name requested by two imports occurs twice) and the list
    is free of duplicates exactly when no name was requested twice.  With
    no call the module holds no [__all__] list. *)
Theorem C1_all_keeps_every_requested_name cs :
  ∃ body, manifest cs = inr body ∧
    dunder_alls body
      = match cs with [] => [] | _ :: _ => [sort (requested_names cs)] end ∧
    ∀ names, names ∈ dunder_alls body →
      names = sort (requested_names cs) ∧
      names ≡ₚ requested_names cs ∧
      (∀ n, length (filter (n =.) names)
            = length (filter (n =.) (requested_names cs))) ∧
      (NoDup names ↔ NoDup (requested_names cs)).
Proof.
  eexists. split; [apply manifest_run|].
  assert (dunder_alls
            (map import_of cs ++ match cs with [] => [] | _ :: _ => [all_assign cs] end)
          = match cs with [] => [] | _ :: _ => [sort (requested_names cs)] end) as D.
  { destruct cs as [|c cs]; [done | apply dunder_alls_manifest]. }
  split; [exact D|]. rewrite D. intros names Hin.
  assert (names = sort (requested_names cs)) as ->.
  { destruct cs as [|c cs]; [by apply elem_of_nil in Hin|].
    by apply list_elem_of_singleton in Hin. }
  split; [done|]. split; [apply sort_perm|]. split.
  - intros n. by rewrite sort_perm.
  - by rewrite sort_perm.
Qed.

(** C4 (as stated) fails: the same two imports added in the two possible
    orders give two different modules. *)
Lemma C4_import_order_counterexample :
  [mk_call ["A"] "op_a" 1; mk_call ["B"] "op_b" 1]
    ≡ₚ [mk_call ["B"] "op_b" 1; mk_call ["A"] "op_a" 1]
  ∧ manifest [mk_call ["A"] "op_a" 1; mk_call ["B"] "op_b" 1]
    ≠ manifest [mk_call ["B"] "op_b" 1; mk_call ["A"] "op_a" 1].
Proof.
  split; [apply Permutation_swap|]. intros H. vm_compute in H. discriminate H.
Qed.

(** C4 (amended): when two sequences of [add_import] calls are permutations
    of each other, both runs return a module.  Each module holds its import
    statements in the order they were added; after them both modules hold
    the same statements: for non-empty sequences the one assignment of the
    sorted list of all requested names to [__all__], with line number one
    more than the number of calls, and nothing for empty sequences.  So the
    [__all__] lists of the two modules are identical, and the modules are
    equal up to the order of their import statements. *)
Theorem C4_all_invariant_under_permutation cs1 cs2 :
  cs1 ≡ₚ cs2 →
  let tail :=
    match cs1 with
    | [] => []
    | _ :: _ =>
        [Assign [Name "__all__"]
                (List (map Constant (sort (requested_names cs1))))
                (Z.of_nat (length cs1) + 1)]
    end in
  manifest cs1 = inr (map import_of cs1 ++ tail) ∧
  manifest cs2 = inr (map import_of cs2 ++ tail) ∧
  dunder_alls (map import_of cs1 ++ tail)
    = match cs1 with [] => [] | _ :: _ => [sort (requested_names cs1)] end ∧
  dunder_alls (map import_of cs2 ++ tail)
    = match cs2 with [] => [] | _ :: _ => [sort (requested_names cs2)] end ∧
  sort (requested_names cs1) = sort (requested_names cs2).
Proof.
  intros P tail.
  assert (sort (requested_names cs1) = sort (requested_names cs2)) as S
    by apply (sort_of_perm _ _ (requested_names_perm _ _ P)).
  assert (match cs2 with [] => [] | _ :: _ => [all_assign cs2] end = tail) as T.
  { unfold tail. destruct cs1 as [|c1 cs1], cs2 as [|c2 cs2]; try done.
    - by apply Permutation_nil_cons in P.
    - symmetry in P. by apply Permutation_nil_cons in P.
    - unfold all_assign. by rewrite S, (Permutation_length P). }
  assert (∀ cs, dunder_alls (map import_of cs ++ tail) = dunder_alls tail) as D.
  { intros cs. pose proof (dunder_alls_imports cs) as E.
    unfold dunder_alls in *. by rewrite omap_app, E. }
  split; [apply manifest_run|]. split; [rewrite <- T; apply manifest_run|].
  rewrite !D. split; [|split; [|exact S]].
  - unfold tail. destruct cs1; simpl; [done|]. by rewrite constant_values_constants.
  - rewrite <- T. destruct cs2; simpl; [done|]. by rewrite constant_values_constants.
Qed.

(** The two orders of two imports. *)
Lemma C4_all_invariant_witness :
  let cs1 := [mk_call ["A"] "op_a" 1; mk_call ["B"] "op_b" 1] in
  let cs2 := [mk_call ["B"] "op_b" 1; mk_call ["A"] "op_a" 1] in
  cs1 ≡ₚ cs2
  ∧ let tail :=
      match cs1 with
      | [] => []
      | _ :: _ =>
          [Assign [Name "__all__"]
                  (List (map Constant (sort (requested_names cs1))))
                  (Z.of_nat (length cs1) + 1)]
      end in
    manifest cs1 = inr (map import_of cs1 ++ tail) ∧
    manifest cs2 = inr (map import_of cs2 ++ tail) ∧
    dunder_alls (map import_of cs1 ++ tail)
      = match cs1 with [] => [] | _ :: _ => [sort (requested_names cs1)] end ∧
    dunder_alls (map import_of cs2 ++ tail)
      = match cs2 with [] => [] | _ :: _ => [sort (requested_names cs2)] end ∧
    sort (requested_names cs1) = sort (requested_names cs2).
Proof.
  intros cs1 cs2. split; [apply Permutation_swap|].
  apply (C4_all_invariant_under_permutation cs1 cs2).
  apply Permutation_swap.
Defined.

(** Names added out of order, in two imports: the [__all__] list holds
    them all, sorted (upper case before lower case). *)
Example manifest_sorts_the_names :
  manifest [mk_call ["b"; "C"] "m1" 1; mk_call ["a"] "m2" 1] =
    inr [ImportFrom "m1" [mk_alias "b"; mk_alias "C"] 1;
         ImportFrom "m2" [mk_alias "a"] 1;
         Assign [Name "__all__"]
                (List [Constant "C"; Constant "a"; Constant "b"]) 3].
Proof. by vm_compute. Qed.

(** C5: after a non-empty sequence of [add_import] calls, the module that
    [generate()] returns has one [__all__] list; that list holds exactly
    the names that were added, each as often as it was added, and it is
    sorted lexicographically, whatever the order the names were added in. *)
Theorem C5_all_is_sorted cs :
  cs ≠ [] →
  ∃ body names,
    manifest cs = inr body ∧ dunder_alls body = [names] ∧
    names ≡ₚ requested_names cs ∧ Sorted str_le names ∧
    names = sort (requested_names cs).
Proof.
  intros Hne. destruct cs as [|c cs]; [done|].
  eexists _, _. split; [apply manifest_run|].
  split; [apply dunder_alls_manifest|].
  split; [apply sort_perm|]. split; [apply sort_sorted | done].
Qed.

(** Two imports whose names arrive out of order. *)
Lemma C5_all_is_sorted_witness :
  [mk_call ["b"; "C"] "m1" 1; mk_call ["a"] "m2" 1] ≠ []
  ∧ ∃ body names,
      manifest [mk_call ["b"; "C"] "m1" 1; mk_call ["a"] "m2" 1] = inr body ∧
      dunder_alls body = [names] ∧
      names ≡ₚ requested_names [mk_call ["b"; "C"] "m1" 1; mk_call ["a"] "m2" 1] ∧
      Sorted str_le names ∧
      names = sort (requested_names [mk_call ["b"; "C"] "m1" 1; mk_call ["a"] "m2" 1]).
Proof.
  split; [discriminate|].
  apply (C5_all_is_sorted [mk_call ["b"; "C"] "m1" 1; mk_call ["a"] "m2" 1]).
  discriminate.
Defined.

(** C8: when no [add_import] call was made, [generate()] returns a module
    with an empty body (no import statement, no [__all__] list) and raises
    nothing. *)
Theorem C8_empty_run_gives_empty_module :
  ∃ m h,
    run [] empty_heap = (inr m, h) ∧
    module_body h m = [] ∧
    import_stmts (module_body h m) = [] ∧
    dunder_alls (module_body h m) = [].
Proof.
  destruct (populated_run []) as (self & h & E & C).
  exists {| body := imports self; type_ignores := [] |}, h.
  unfold run. rewrite bind_run, E, (generate_empty self h C).
  unfold module_body. simpl. by rewrite C.
Qed.

(** C10 (as stated) fails: after one [add_import], the second call of
    [generate()] returns no module; it raises [AttributeError]. *)
Lemma C10_second_generate_counterexample :
  (run_twice [mk_call ["A"] "m" 1] empty_heap).1
    = inl (AttributeError "Assign" "names").
Proof. by vm_compute. Qed.

(** C10 (amended): [generate()] mutates the generator.  For every generator
    that received at least one [add_import], the module returned by the
    first call has as body the generator's own list object, to which the
    [__all__] assignment was appended; a second call raises
    [AttributeError] on that assignment (it has no [names]) and leaves the
    list as the first call left it. *)
Theorem C10_generate_mutates_and_second_call_raises cs :
  cs ≠ [] →
  ∃ self h0 m h1,
    populated cs empty_heap = (inr self, h0) ∧
    contents h0 (imports self) = map import_of cs ∧
    generate self h0 = (inr m, h1) ∧
    body m = imports self ∧
    contents h1 (imports self) = map import_of cs ++ [all_assign cs] ∧
    generate self h1 = (inl (AttributeError "Assign" "names"), h1) ∧
    run_twice cs empty_heap = (inl (AttributeError "Assign" "names"), h1).
Proof.
  intros Hne. destruct (populated_run cs) as (self & h0 & E & C).
  pose proof (generate_imports self cs h0 Hne C) as G.
  set (h1 := {| objs := _; next := _ |}) in G.
  assert (contents h1 (imports self) = map import_of cs ++ [all_assign cs]) as C1.
  { unfold contents, h1. simpl. by rewrite lookup_insert_eq. }
  assert (generate self h1 = (inl (AttributeError "Assign" "names"), h1)) as G1.
  { apply generate_raises. rewrite C1. apply Exists_app. right. by left. }
  exists self, h0, {| body := imports self; type_ignores := [] |}, h1.
  repeat split; try done.
  unfold run_twice. by rewrite bind_run, E, bind_run, G, bind_run, G1.
Qed.

(** A generator with one import. *)
Lemma C10_generate_mutates_witness :
  [mk_call ["A"] "m" 1] ≠ []
  ∧ ∃ self h0 m h1,
      populated [mk_call ["A"] "m" 1] empty_heap = (inr self, h0) ∧
      contents h0 (imports self) = map import_of [mk_call ["A"] "m" 1] ∧
      generate self h0 = (inr m, h1) ∧
      body m = imports self ∧
      contents h1 (imports self)
        = map import_of [mk_call ["A"] "m" 1] ++ [all_assign [mk_call ["A"] "m" 1]] ∧
      generate self h1 = (inl (AttributeError "Assign" "names"), h1) ∧
      run_twice [mk_call ["A"] "m" 1] empty_heap
        = (inl (AttributeError "Assign" "names"), h1).
Proof.
  split; [discriminate|].
  apply (C10_generate_mutates_and_second_call_raises [mk_call ["A"] "m" 1]).
  discriminate.
Defined.

End init_file_claims.

(** ** Union annotations *)

Section union_annotation_claims.
Import PyAst Codegen.

(** C9: for at least two variant type names, the annotation of a nullable
    union-typed field is the [Union] node under exactly one [Optional]
    layer, the node under that layer is not an [Optional], and the variants
    of the [Union] are the given ones in the given order; when the field is
    not nullable the annotation is the [Union] node with no [Optional]
    layer. *)
Theorem C9_union_annotation_single_optional (names : list string) :
  (2 ≤ length names)%nat →
  let types := map Name names in
  generate_union_annotation types true
    = Subscript (Name OPTIONAL) (generate_union_annotation types false) ∧
  optional_layers (generate_union_annotation types true) = 1%nat ∧
  is_subscript_of OPTIONAL (under_optional (generate_union_annotation types true))
    = false ∧
  union_variants (under_optional (generate_union_annotation types true))
    = Some types ∧
  optional_layers (generate_union_annotation types false) = 0%nat ∧
  union_variants (generate_union_annotation types false) = Some types.
Proof. intros _ types. by repeat split. Qed.

(** The two variants of the tests. *)
Lemma C9_union_annotation_witness :
  (2 ≤ length ["Xyz1"; "Xyz2"])%nat
  ∧ let types := map Name ["Xyz1"; "Xyz2"] in
    generate_union_annotation types true
      = Subscript (Name OPTIONAL) (generate_union_annotation types false) ∧
    optional_layers (generate_union_annotation types true) = 1%nat ∧
    is_subscript_of OPTIONAL (under_optional (generate_union_annotation types true))
      = false ∧
    union_variants (under_optional (generate_union_annotation types true))
      = Some types ∧
    optional_layers (generate_union_annotation types false) = 0%nat ∧
    union_variants (generate_union_annotation types false) = Some types.
Proof.
  split; [simpl; lia|].
  apply (C9_union_annotation_single_optional ["Xyz1"; "Xyz2"]). simpl. lia.
Defined.

End union_annotation_claims.

(** ** The runtime client *)

Section value_induction.
Import BaseClient.

Variable P : value → Prop.
Hypothesis HUnset : P VUnset.
Hypothesis HNone : P VNone.
Hypothesis HBool : ∀ b, P (VBool b).
Hypothesis HInt : ∀ n, P (VInt n).
Hypothesis HStr : ∀ s, P (VStr s).
Hypothesis HList : ∀ items, Forall P items → P (VList items).
Hypothesis HDict : ∀ d, Forall (λ kv, P kv.2) d → P (VDict d).
Hypothesis HModel : ∀ d, Forall (λ kv, P kv.2) d → P (VModel d).

(** Induction over values, with the induction hypothesis for every element
    of a list and every value of a mapping or record. *)
Lemma value_nested_ind (v : value) : P v.
Proof.
  revert v. fix IH 1. intros v.
  destruct v as [| | b | n | s | items | d | d].
  - exact HUnset.
  - exact HNone.
  - exact (HBool b).
  - exact (HInt n).
  - exact (HStr s).
  - apply HList. revert items. fix go 1.
    intros [|x rest]; constructor; [apply IH | apply go].
  - apply HDict. revert d. fix go 1.
    intros [|[k x] rest]; constructor; [apply IH | apply go].
  - apply HModel. revert d. fix go 1.
    intros [|[k x] rest]; constructor; [apply IH | apply go].
Qed.

End value_induction.

Section variables_claims.
Import BaseClient.

Lemma strip_dict d : strip (VDict d) = VDict (strip_entries d).
Proof.
  reflexivity.
Qed.

Lemma strip_model d : strip (VModel d) = VDict (strip_entries d).
Proof. by rewrite <- strip_dict. Qed.

Lemma strip_list items : strip (VList items) = VList (map strip items).
Proof. done. Qed.

Lemma has_unset_entry_dict d :
  has_unset_entry (VDict d)
  = existsb (λ kv, is_unset kv.2 || has_unset_entry kv.2) d.
Proof. simpl. induction d as [|[k x] d IH]; simpl; [done | by rewrite IH]. Qed.

(** Stripping never turns a value into the absent marker. *)
Lemma strip_not_unset v : is_unset v = false → is_unset (strip v) = false.
Proof. by destruct v. Qed.

Lemma strip_entries_clean d :
  Forall (λ kv, has_unset_entry (strip kv.2) = false) d →
  has_unset_entry (VDict (strip_entries d)) = false.
Proof.
  rewrite has_unset_entry_dict.
  induction 1 as [|[k x] d Hx _ IH]; simpl in *; [done|].
  destruct (is_unset x) eqn:U; [done|]. simpl.
  by rewrite (strip_not_unset x U), Hx, IH.
Qed.

(** After stripping, no mapping at any depth has an absent entry. *)
Lemma strip_clean v : has_unset_entry (strip v) = false.
Proof.
  induction v as [| | | | |items IH|d IH|d IH] using value_nested_ind; try done.
  - rewrite strip_list. simpl. induction IH as [|x items Hx _ IH']; simpl; [done|].
    by rewrite Hx, IH'.
  - rewrite strip_dict. by apply strip_entries_clean.
  - rewrite strip_model. by apply strip_entries_clean.
Qed.

Lemma dict_get_strip k d x :
  dict_get k d = Some x → is_unset x = false →
  dict_get k (strip_entries d) = Some (strip x).
Proof.
  intros G U. induction d as [|[k' y] d IH]; simpl in *; [done|].
  destruct (String.eqb k k') eqn:K.
  - injection G as ->. rewrite U. simpl. by rewrite K.
  - destruct (is_unset y); [by apply IH|]. simpl. rewrite K. by apply IH.
Qed.

(** A path that ends on a value continues from no absent marker. *)
Lemma at_path_from_unset p w :
  at_path p VUnset = Some w → is_unset w = true.
Proof. destruct p as [|[k|i] p]; simpl; [by intros [= <-] | done | done]. Qed.

(** Every value reachable in the input that is not the absent marker is
    reachable along the same path in the output, stripped. *)
Lemma at_path_strip p v w :
  at_path p v = Some w → is_unset w = false →
  at_path p (strip v) = Some (strip w).
Proof.
  revert v. induction p as [|[k|i] p IH]; intros v H U.
  - simpl in H. injection H as ->. done.
  - assert (∀ d, dict_get k d ≫= at_path p = Some w →
                 dict_get k (strip_entries d) ≫= at_path p = Some (strip w)) as D.
    { intros d Hd. destruct (dict_get k d) as [x|] eqn:G; [|done]. simpl in Hd.
      assert (is_unset x = false) as Ux.
      { destruct x; try done. apply at_path_from_unset in Hd. congruence. }
      rewrite (dict_get_strip _ _ _ G Ux). simpl. by apply IH. }
    destruct v; try done.
    + rewrite strip_dict. by apply D.
    + rewrite strip_model. by apply D.
  - destruct v; try done. rewrite strip_list. simpl in *.
    rewrite list_lookup_fmap. destruct (items !! i) as [x|]; [|done].
    simpl in *. by apply IH.
Qed.

End variables_claims.

Section client_claims.
Import BaseClient.

(** The variables of [test_execute_sends_payload_without_unset_arguments]. *)
Example execute_without_unset_arguments q :
  execute_payload q
    [("arg1", VUnset); ("arg2", VUnset); ("arg3", VNone); ("arg4", VInt 2)]
  = {| query := q; variables := [("arg3", VNone); ("arg4", VInt 2)] |}.
Proof. reflexivity. Qed.

(** The variables of [test_execute_sends_payload_without_unset_input_fields]:
    the fields that were not given are absent. *)
Example execute_without_unset_input_fields q :
  execute_payload q
    [("arg", VModel [("required_a", VStr "a");
                     ("optional_a", VUnset);
                     ("input_b1", VModel [("required_b", VStr "b");
                                          ("optional_b", VUnset)]);
                     ("input_b2", VUnset);
                     ("input_b3", VNone)])]
  = {| query := q;
       variables := [("arg", VDict [("required_a", VStr "a");
                                    ("input_b1", VDict [("required_b", VStr "b")]);
                                    ("input_b3", VNone)])] |}.
Proof. reflexivity. Qed.

(** C2: in the variables that [execute] sends, no mapping at any nesting
    depth has an entry whose value is absent; every value of the input that
    is not absent, an explicit null in particular, is found along the same
    path in the output; and
    [{"a": UNSET, "b": None, "c": {"d": UNSET, "e": 1}}] is sent as
    [{"b": None, "c": {"e": 1}}]. *)
Theorem C2_unset_stripped_null_preserved (q : string) (vars : dict value) :
  let sent := variables (execute_payload q vars) in
  has_unset_entry (VDict sent) = false ∧
  (∀ p w, at_path p (VDict vars) = Some w → is_unset w = false →
          at_path p (VDict sent) = Some (strip w)) ∧
  (∀ p, at_path p (VDict vars) = Some VNone → at_path p (VDict sent) = Some VNone) ∧
  execute_payload q
    [("a", VUnset); ("b", VNone); ("c", VDict [("d", VUnset); ("e", VInt 1)])]
  = {| query := q; variables := [("b", VNone); ("c", VDict [("e", VInt 1)])] |}.
Proof.
  intros sent. unfold sent, execute_payload. cbn [variables].
  rewrite <- !strip_dict. split; [apply strip_clean|].
  split; [intros p w; apply at_path_strip|]. split; [|done].
  intros p H. by apply (at_path_strip p _ VNone).
Qed.

(** The cases of the tests of [get_data], each with the parsed body the
    test's response denotes. *)
Example get_data_http_error :
  get_data (λ _, Some (JObj [("msg", JStr "Unauthorized")])) (mk_response 401 "body")
  = inl (HttpError 401 (mk_response 401 "body")).
Proof. reflexivity. Qed.

Example get_data_invalid_not_a_mapping :
  get_data (λ _, Some (JStr "invalid_json")) (mk_response 200 "body")
  = inl (InvalidResponseError (mk_response 200 "body")).
Proof. reflexivity. Qed.

Example get_data_invalid_no_data_key :
  get_data (λ _, Some (JObj [("not_data", JStr "")])) (mk_response 200 "body")
  = inl (InvalidResponseError (mk_response 200 "body")).
Proof. reflexivity. Qed.

Example get_data_multi_error :
  get_data
    (λ _, Some (JObj [("data", JObj []);
                      ("errors", JArr [JObj [("message", JStr "Error message type A")];
                                       JObj [("message", JStr "Error message type B")]])]))
    (mk_response 200 "body")
  = inl (GraphQLMultiError [JObj [("message", JStr "Error message type A")];
                            JObj [("message", JStr "Error message type B")]]).
Proof. reflexivity. Qed.

Example get_data_errors_empty :
  get_data (λ _, Some (JObj [("errors", JArr []); ("data", JObj [])]))
    (mk_response 200 "body")
  = inr (JObj []).
Proof. reflexivity. Qed.

Example get_data_errors_null :
  get_data (λ _, Some (JObj [("errors", JNull); ("data", JObj [])]))
    (mk_response 200 "body")
  = inr (JObj []).
Proof. reflexivity. Qed.

Example get_data_only_data :
  get_data (λ _, Some (JObj [("data", JObj [])])) (mk_response 200 "body")
  = inr (JObj []).
Proof. reflexivity. Qed.

(** C3: for a 2xx response whose parsed body has a [data] key, [get_data]
    raises [GraphQLMultiError] exactly when the [errors] entry of the body
    holds one or more error entries, and the exception then carries all of
    them, whatever the value under [data]; with an [errors] entry that is
    an empty list or null, [get_data] returns the value under [data]. *)
Theorem C3_multi_error_iff_errors_reported
    (parse : string → option json) (response : Response) (body data : json) :
  is_success response = true →
  parse (content response) = Some body →
  member "data" body = Some data →
  ((∃ errs, get_data parse response = inl (GraphQLMultiError errs)) ↔
   (∃ e es, member "errors" body = Some (JArr (e :: es)))) ∧
  (∀ e es, member "errors" body = Some (JArr (e :: es)) →
           get_data parse response = inl (GraphQLMultiError (e :: es))) ∧
  (member "errors" body = Some (JArr []) ∨ member "errors" body = Some JNull →
   get_data parse response = inr data).
Proof.
  intros S B D. unfold get_data. rewrite S, B, D. simpl.
  split; [split|split].
  - intros [errs H]. destruct (member "errors" body) as [[| | | |[|e es]|]|]; eauto; done.
  - intros (e & es & ->). eauto.
  - by intros e es ->.
  - by intros [-> | ->].
Qed.

(** A response that reports one error next to non-empty data. *)
Lemma C3_multi_error_witness :
  let parse := λ _ : string,
    Some (JObj [("data", JObj [("field1", JNum 1)]);
                ("errors", JArr [JObj [("message", JStr "boom")]])]) in
  let response := {| status_code := 200; content := "body" |} in
  let body := JObj [("data", JObj [("field1", JNum 1)]);
                    ("errors", JArr [JObj [("message", JStr "boom")]])] in
  let data := JObj [("field1", JNum 1)] in
  (is_success response = true ∧
   parse (content response) = Some body ∧
   member "data" body = Some data) ∧
  ((∃ errs, get_data parse response = inl (GraphQLMultiError errs)) ↔
   (∃ e es, member "errors" body = Some (JArr (e :: es)))) ∧
  (∀ e es, member "errors" body = Some (JArr (e :: es)) →
           get_data parse response = inl (GraphQLMultiError (e :: es))) ∧
  (member "errors" body = Some (JArr []) ∨ member "errors" body = Some JNull →
   get_data parse response = inr data).
Proof.
  intros parse response body data.
  split; [repeat split; reflexivity|].
  apply (C3_multi_error_iff_errors_reported parse response body data); reflexivity.
Defined.

(** C6: for a 2xx response, [get_data] raises [InvalidResponseError] when
    the body is not parseable and when the parsed body has no [data] key;
    when the body has a [data] key and its [errors] entry holds no error
    entry, [get_data] returns exactly the value under [data], an empty
    mapping included. *)
Theorem C6_invalid_response_or_data
    (parse : string → option json) (response : Response) :
  is_success response = true →
  (parse (content response) = None →
   get_data parse response = inl (InvalidResponseError response)) ∧
  (∀ body, parse (content response) = Some body → member "data" body = None →
           get_data parse response = inl (InvalidResponseError response)) ∧
  (∀ body data,
     parse (content response) = Some body → member "data" body = Some data →
     (∀ e es, member "errors" body ≠ Some (JArr (e :: es))) →
     get_data parse response = inr data) ∧
  (∀ members,
     parse (content response) = Some (JObj members) →
     dict_get "data" members = Some (JObj []) →
     dict_get "errors" members = None →
     get_data parse response = inr (JObj [])).
Proof.
  intros S. unfold get_data. rewrite S. simpl. repeat split.
  - by intros ->.
  - by intros body -> ->.
  - intros body data -> -> N.
    destruct (member "errors" body) as [[| | | |[|e es]|]|]; try done.
    by destruct (N e es).
  - intros members -> D E. simpl. by rewrite D, E.
Qed.

(** A response whose data is the empty mapping. *)
Lemma C6_invalid_response_or_data_witness :
  let parse := λ _ : string, Some (JObj [("data", JObj [])]) in
  let response := {| status_code := 200; content := "body" |} in
  is_success response = true ∧
  (parse (content response) = None →
   get_data parse response = inl (InvalidResponseError response)) ∧
  (∀ body, parse (content response) = Some body → member "data" body = None →
           get_data parse response = inl (InvalidResponseError response)) ∧
  (∀ body data,
     parse (content response) = Some body → member "data" body = Some data →
     (∀ e es, member "errors" body ≠ Some (JArr (e :: es))) →
     get_data parse response = inr data) ∧
  (∀ members,
     parse (content response) = Some (JObj members) →
     dict_get "data" members = Some (JObj []) →
     dict_get "errors" members = None →
     get_data parse response = inr (JObj [])).
Proof.
  intros parse response. split; [reflexivity|].
  apply (C6_invalid_response_or_data parse response). reflexivity.
Defined.

(** C7: for a response whose status is not 2xx, [get_data] raises
    [HttpError] carrying the status code and the response with its raw
    body, whatever the parser would make of the body: the result does not
    depend on the parser, so also a body that is not parseable gives
    [HttpError]. *)
Theorem C7_http_error_before_parsing
    (parse : string → option json) (response : Response) :
  is_success response = false →
  get_data parse response = inl (HttpError (status_code response) response) ∧
  (∀ parse', get_data parse' response = get_data parse response) ∧
  (parse (content response) = None →
   get_data parse response ≠ inl (InvalidResponseError response)).
Proof.
  intros S. unfold get_data. rewrite S. simpl. repeat split; done.
Qed.

(** A status-500 response whose body is not parseable. *)
Lemma C7_http_error_witness :
  let parse := λ _ : string, @None json in
  let response := {| status_code := 500; content := "Internal Server Error" |} in
  is_success response = false ∧
  get_data parse response = inl (HttpError (status_code response) response) ∧
  (∀ parse', get_data parse' response = get_data parse response) ∧
  (parse (content response) = None →
   get_data parse response ≠ inl (InvalidResponseError response)).
Proof.
  intros parse response. split; [reflexivity|].
  apply (C7_http_error_before_parsing parse response). reflexivity.
Defined.

End client_claims.

(** ** Sequences of calls on the package assembler *)

Section init_file_sessions.
Import PyStr PyAst Store InitFile Sessions.

Lemma contents_append_ne r r' x h :
  r' ≠ r → contents (append r x h).2 r' = contents h r'.
Proof. intros N. unfold append, contents. simpl. by rewrite lookup_insert_ne. Qed.

(** [add_import] calls change the list of their generator and nothing else. *)
Lemma add_imports_frame self cs h :
  ∃ h', add_imports self cs h = (inr tt, h') ∧
        contents h' (imports self) = contents h (imports self) ++ map import_of cs ∧
        (∀ r, r ≠ imports self → contents h' r = contents h r) ∧
        next h' = next h.
Proof.
  revert h. induction cs as [|c cs IH]; intros h; simpl.
  - exists h. by rewrite app_nil_r.
  - rewrite bind_run. unfold add_import.
    destruct (IH (append (imports self) (import_of c) h).2) as (h' & E & C & F & N).
    exists h'. split; [exact E|]. split; [|split].
    + by rewrite C, contents_append, <- app_assoc.
    + intros r Hr. rewrite (F r Hr). by apply contents_append_ne.
    + by rewrite N.
Qed.

(** [generate()] on a list of import statements: the module is returned, the
    closing statements are appended, and no other list changes. *)
Lemma generate_contents self cs h :
  contents h (imports self) = map import_of cs →
  ∃ h', generate self h = (inr {| body := imports self; type_ignores := [] |}, h') ∧
        contents h' (imports self) = map import_of cs ++ closing cs ∧
        (∀ r, r ≠ imports self → contents h' r = contents h r) ∧
        next h' = next h.
Proof.
  intros C. destruct cs as [|c cs].
  - exists h. rewrite generate_empty by done. by rewrite C.
  - eexists. split; [by apply (generate_imports self (c :: cs))|].
    unfold contents. simpl. rewrite lookup_insert_eq. split; [done|]. split; [|done].
    intros r Hr. by rewrite lookup_insert_ne.
Qed.

Lemma import_as_call s : is_import s = true → ∃ c, s = import_of c.
Proof.
  destruct s as [m names l|]; [intros _|done].
  exists (mk_call (map name names) m l). unfold import_of, generate_import_from.
  simpl. f_equal. rewrite map_map. induction names as [|[n] names IH]; simpl; [done|].
  by rewrite <- IH.
Qed.

Lemma imports_as_calls imps :
  forallb is_import imps = true → ∃ cs, imps = map import_of cs.
Proof.
  induction imps as [|s imps IH]; simpl.
  - by exists [].
  - intros [Hs Hi]%andb_prop. destruct (import_as_call s Hs) as [c ->].
    destruct (IH Hi) as [cs ->]. by exists (c :: cs).
Qed.

Lemma not_all_imports imps :
  forallb is_import imps = false → Exists (λ s, is_import s = false) imps.
Proof.
  induction imps as [|s imps IH]; simpl; [done|].
  destruct (is_import s) eqn:Hs; simpl; [right; by apply IH | by left].
Qed.

Lemma forallb_imports cs : forallb is_import (map import_of cs) = true.
Proof. induction cs as [|c cs IH]; simpl; done. Qed.

Lemma phase_of_add imps c :
  phase_of (imps ++ [import_of c])
  = match phase_of imps with Empty => Filling | p => p end.
Proof.
  destruct imps as [|s imps]; [done|]. simpl.
  rewrite forallb_app. simpl. rewrite andb_true_r.
  by destruct (is_import s && forallb is_import imps).
Qed.

Lemma phase_of_closed cs :
  cs ≠ [] → phase_of (map import_of cs ++ closing cs) = Sealed.
Proof.
  destruct cs as [|c cs]; [done|]. intros _. simpl.
  rewrite forallb_app. simpl. by rewrite andb_false_r.
Qed.

End init_file_sessions.

Section init_file_protocol.
Import PyStr PyAst Store InitFile Sessions.

Lemma dunder_alls_app l1 l2 : dunder_alls (l1 ++ l2) = dunder_alls l1 ++ dunder_alls l2.
Proof. unfold dunder_alls. apply omap_app. Qed.

Lemma dunder_alls_closing cs :
  dunder_alls (closing cs)
  = match cs with [] => [] | _ :: _ => [sort (requested_names cs)] end.
Proof. destruct cs as [|c cs]; simpl; [done|]. by rewrite constant_values_constants. Qed.

(** What a sequence of calls does to a generator, in one statement: the
    outcome is decided by the phase of the list; the list only grows at its
    end; an [__all__] assignment is added only to a list that has none; no
    other list object changes. *)
Lemma exec_invariants self ops h :
  ∃ r h',
    exec self ops h = (r, h') ∧
    r = (if allowed_from (phase_of (contents h (imports self))) ops
         then inr tt else inl (AttributeError "Assign" "names")) ∧
    contents h (imports self) `prefix_of` contents h' (imports self) ∧
    ((length (dunder_alls (contents h (imports self))) ≤ 1)%nat →
     (length (dunder_alls (contents h' (imports self))) ≤ 1)%nat) ∧
    (∀ r', r' ≠ imports self → contents h' r' = contents h r').
Proof.
  revert h. induction ops as [|[c|] ops IH]; intros h.
  - exists (inr tt), h. split; [done|]. split; [done|]. by split.
  - simpl. rewrite bind_run. unfold add_import. fold (import_of c).
    set (h1 := (append (imports self) (import_of c) h).2).
    change (append (imports self) (import_of c) h) with (@inr exn unit tt, h1).
    destruct (IH h1) as (r & h' & E & R & P & D & F).
    assert (contents h1 (imports self) = contents h (imports self) ++ [import_of c])
      as C1 by apply contents_append.
    rewrite C1, phase_of_add in R. rewrite C1 in P, D.
    exists r, h'. split; [exact E|].
    split; [revert R; simpl; by destruct (phase_of (contents h (imports self)))|].
    split; [|split].
    + etrans; [|exact P]. by apply prefix_app_r.
    + intros L. apply D. by rewrite dunder_alls_app, app_nil_r.
    + intros r' Hr. rewrite (F r' Hr). by apply contents_append_ne.
  - simpl. rewrite bind_run.
    destruct (contents h (imports self)) as [|s imps] eqn:C.
    { rewrite (generate_empty self h C).
      destruct (IH h) as (r & h' & E & R & P & D & F). rewrite C in R, P, D.
      exists r, h'. split; [exact E|]. split; [exact R|]. by split. }
    unfold phase_of. destruct (forallb is_import (s :: imps)) eqn:A.
    + destruct (imports_as_calls _ A) as [cs Ecs].
      assert (cs ≠ []) as Hne by (intros ->; done).
      rewrite Ecs in C.
      destruct (generate_contents self cs h C) as (h1 & G & C1 & F1 & _).
      rewrite G. destruct (IH h1) as (r & h' & E & R & P & D & F).
      rewrite C1, (phase_of_closed cs Hne) in R. rewrite C1 in P, D.
      exists r, h'. split; [exact E|]. split; [exact R|]. split; [|split].
      * rewrite Ecs. etrans; [|exact P]. by apply prefix_app_r.
      * intros _. apply D.
        rewrite dunder_alls_app, (dunder_alls_imports cs), dunder_alls_closing.
        destruct cs; simpl; lia.
      * intros r' Hr. by rewrite (F r' Hr), (F1 r' Hr).
    + rewrite generate_raises by (rewrite C; by apply not_all_imports).
      exists (inl (AttributeError "Assign" "names")), h.
      split; [done|]. split; [done|]. split; [by rewrite C|].
      split; [by rewrite C | done].
Qed.

End init_file_protocol.

Section init_file_extras.
Import PyStr PyAst Store InitFile Sessions.

Lemma allowed_from_sealed ops :
  allowed_from Sealed ops = true ↔ count_generate ops = 0%nat.
Proof. induction ops as [|[c|] ops IH]; simpl; [done | done | split; done]. Qed.

Lemma allowed_from_filling ops :
  allowed_from Filling ops = true ↔ (count_generate ops ≤ 1)%nat.
Proof.
  induction ops as [|[c|] ops IH]; simpl; [split; [lia|done] | done |].
  rewrite allowed_from_sealed. lia.
Qed.

Lemma allowed_from_empty ops :
  allowed_from Empty ops = true ↔ (generates_after_add ops ≤ 1)%nat.
Proof.
  induction ops as [|[c|] ops IH]; simpl; [split; [lia|done] | | done].
  apply allowed_from_filling.
Qed.

(** X1: a sequence of [add_import] and [generate()] calls on a fresh
    generator runs to its end exactly when at most one [generate()] comes
    after the first [add_import]; every other sequence raises
    [AttributeError]. *)
Theorem session_succeeds_iff_one_generate_after_add ops :
  (session ops empty_heap).1 =
    if bool_decide (generates_after_add ops ≤ 1)%nat
    then inr tt else inl (AttributeError "Assign" "names").
Proof.
  unfold session, init. rewrite !bind_run. simpl.
  set (h0 := {| objs := _; next := _ |}).
  destruct (exec_invariants (mk_gen 1%positive) ops h0) as (r & h' & -> & -> & _).
  simpl. change (contents h0 1%positive) with (@nil stmt). simpl.
  pose proof (allowed_from_empty ops) as A.
  destruct (allowed_from Empty ops); case_bool_decide; try done.
  - destruct A as [A _]. by specialize (A eq_refl).
  - destruct A as [_ A]. by specialize (A ltac:(done)).
Qed.

(** X2: whatever calls a generator receives, and whether they end with an
    exception or not, a list with at most one [__all__] assignment never
    gets a second one. *)
Theorem exec_keeps_at_most_one_dunder_all self ops h :
  (length (dunder_alls (contents h (imports self))) ≤ 1)%nat →
  (length (dunder_alls (contents (exec self ops h).2 (imports self))) ≤ 1)%nat.
Proof.
  destruct (exec_invariants self ops h) as (r & h' & -> & _ & _ & D & _). exact D.
Qed.

(** A generator that already produced its module and is asked again. *)
Lemma exec_keeps_at_most_one_dunder_all_witness :
  (length (dunder_alls (contents empty_heap (imports (mk_gen 1%positive)))) ≤ 1)%nat
  ∧ (length (dunder_alls
       (contents
          (exec (mk_gen 1%positive)
                [Add (mk_call ["A"] "m" 1); Generate; Generate] empty_heap).2
          (imports (mk_gen 1%positive)))) ≤ 1)%nat.
Proof.
  split; [vm_compute; lia|].
  apply (exec_keeps_at_most_one_dunder_all (mk_gen 1%positive)
           [Add (mk_call ["A"] "m" 1); Generate; Generate] empty_heap).
  vm_compute. lia.
Defined.

(** X3: the list of a generator only grows at its end: whatever calls it
    receives, the statements it held stay where they are. *)
Theorem exec_only_appends self ops h :
  contents h (imports self) `prefix_of` contents (exec self ops h).2 (imports self).
Proof.
  destruct (exec_invariants self ops h) as (r & h' & -> & _ & P & _). exact P.
Qed.

End init_file_extras.

Section init_file_runs.
Import PyStr PyAst Store InitFile Sessions.

(** X4: a module returned by [generate()] is not a snapshot.  Imports added
    to the generator afterwards show up in the body of the module already
    returned, after the [__all__] assignment, and the [__all__] list is not
    brought up to date with their names. *)
Theorem returned_module_sees_later_imports cs cs' :
  ∃ m h,
    run_then_add cs cs' empty_heap = (inr m, h) ∧
    module_body h m = map import_of cs ++ closing cs ++ map import_of cs' ∧
    dunder_alls (module_body h m)
      = match cs with [] => [] | _ :: _ => [sort (requested_names cs)] end.
Proof.
  destruct (populated_run cs) as (self & h0 & E & C0).
  destruct (generate_contents self cs h0 C0) as (h1 & G & C1 & _).
  destruct (add_imports_frame self cs' h1) as (h2 & A & C2 & _).
  exists {| body := imports self; type_ignores := [] |}, h2.
  unfold run_then_add. rewrite bind_run, E, bind_run, G, bind_run, A.
  split; [done|]. unfold module_body. simpl. rewrite C2, C1, <- app_assoc.
  split; [done|].
  rewrite !dunder_alls_app, (dunder_alls_imports cs), (dunder_alls_imports cs').
  by rewrite app_nil_r, dunder_alls_closing.
Qed.

Lemma add_imports_to_run g1 g2 cs h :
  imports g1 ≠ imports g2 →
  ∃ h', add_imports_to g1 g2 cs h = (inr tt, h') ∧
        contents h' (imports g1)
          = contents h (imports g1) ++ map import_of (calls_of true cs) ∧
        contents h' (imports g2)
          = contents h (imports g2) ++ map import_of (calls_of false cs).
Proof.
  intros N. revert h. induction cs as [|[b c] cs IH]; intros h.
  - exists h. simpl. by rewrite !app_nil_r.
  - simpl. rewrite bind_run. unfold add_import. fold (import_of c).
    set (g := if b then g1 else g2).
    destruct (IH (append (imports g) (import_of c) h).2) as (h' & E & C1 & C2).
    exists h'. split; [exact E|]. rewrite C1, C2. unfold g.
    destruct b.
    + rewrite contents_append, (contents_append_ne (imports g1) (imports g2)) by done.
      by rewrite <- app_assoc.
    + rewrite contents_append, (contents_append_ne (imports g2) (imports g1)) by done.
      by rewrite <- app_assoc.
Qed.

(** X5: two generators do not share their list.  When calls on two
    generators are interleaved in any way, each generator's module is the
    module it would produce if it were used alone with its own calls. *)
Theorem two_generators_are_independent (cs : list (bool * call)) :
  ∃ m1 m2 h,
    run_two cs empty_heap = (inr (m1, m2), h) ∧
    manifest (calls_of true cs) = inr (module_body h m1) ∧
    manifest (calls_of false cs) = inr (module_body h m2).
Proof.
  set (g1 := mk_gen 1%positive). set (g2 := mk_gen 2%positive).
  set (h0 := {| objs := <[2%positive := []]> (<[1%positive := []]> ∅);
                next := 3%positive |}).
  assert (imports g1 ≠ imports g2) as N by done.
  destruct (add_imports_to_run g1 g2 cs h0 N) as (h1 & A & C1 & C2).
  change (contents h0 (imports g1)) with (@nil stmt) in C1.
  change (contents h0 (imports g2)) with (@nil stmt) in C2. simpl in C1, C2.
  unfold run_two. rewrite bind_run.
  change (init empty_heap) with (@inr exn _ g1, (init empty_heap).2).
  cbv beta iota. rewrite bind_run.
  change (init (init empty_heap).2) with (@inr exn _ g2, h0).
  cbv beta iota.
  destruct (generate_contents g1 _ h1 C1) as (h2 & G1 & D1 & F1 & _).
  assert (contents h2 (imports g2) = map import_of (calls_of false cs)) as C2'
    by (rewrite F1; done).
  destruct (generate_contents g2 _ h2 C2') as (h3 & G2 & D2 & F2 & _).
  exists {| body := imports g1; type_ignores := [] |},
         {| body := imports g2; type_ignores := [] |}, h3.
  rewrite bind_run, A, bind_run, G1, bind_run, G2. split; [done|].
  rewrite !manifest_run. unfold module_body. cbn [body].
  by rewrite D2, (F2 (imports g1) N), D1.
Qed.

(** X6: the line number given to the [__all__] assignment is its position
    in the module body, counted from one: the assignment is the last
    statement, and every import statement before it counts for one line. *)
Theorem dunder_all_lineno_is_its_position cs :
  cs ≠ [] →
  ∃ body value,
    manifest cs = inr body ∧
    last body = Some (Assign [Name "__all__"] value (Z.of_nat (length body))).
Proof.
  intros Hne. destruct cs as [|c cs]; [done|].
  pose proof (manifest_run (c :: cs)) as M. cbv iota in M.
  eexists _, _. split; [exact M|].
  rewrite last_snoc. unfold all_assign. do 2 f_equal.
  rewrite length_app, !length_map. simpl. lia.
Qed.

(** Three imports. *)
Lemma dunder_all_lineno_witness :
  [mk_call ["A"] "a" 1; mk_call ["B"] "b" 1; mk_call ["C"] "c" 1] ≠ []
  ∧ ∃ body value,
      manifest [mk_call ["A"] "a" 1; mk_call ["B"] "b" 1; mk_call ["C"] "c" 1]
        = inr body ∧
      last body = Some (Assign [Name "__all__"] value (Z.of_nat (length body))).
Proof.
  split; [discriminate|].
  apply (dunder_all_lineno_is_its_position
           [mk_call ["A"] "a" 1; mk_call ["B"] "b" 1; mk_call ["C"] "c" 1]).
  discriminate.
Defined.

(** X7: the [__all__] assignment is emitted as soon as one [add_import] call
    was made, also when no call gave any name: the module then holds the
    import statements and [__all__ = []]. *)
Theorem dunder_all_emitted_without_names cs :
  cs ≠ [] →
  requested_names cs = [] →
  ∃ body,
    manifest cs = inr body ∧
    dunder_alls body = [[]] ∧
    import_stmts body = map import_of cs.
Proof.
  intros Hne Hn. destruct cs as [|c cs]; [done|].
  eexists. split; [apply manifest_run|]. split.
  - by rewrite dunder_alls_manifest, Hn.
  - unfold import_stmts. rewrite List.filter_app. fold (import_stmts (map import_of (c :: cs))).
    rewrite import_stmts_imports. simpl. by rewrite app_nil_r.
Qed.

(** One import without names. *)
Lemma dunder_all_emitted_without_names_witness :
  ([mk_call [] "m" 1] ≠ [] ∧ requested_names [mk_call [] "m" 1] = [])
  ∧ ∃ body,
      manifest [mk_call [] "m" 1] = inr body ∧
      dunder_alls body = [[]] ∧
      import_stmts body = map import_of [mk_call [] "m" 1].
Proof.
  split; [split; [discriminate | reflexivity]|].
  apply (dunder_all_emitted_without_names [mk_call [] "m" 1]);
    [discriminate | reflexivity].
Defined.

(** X8: the [__all__] list depends on nothing but the names requested:
    two non-empty sequences of calls that request the same names as often,
    from whatever modules, at whatever levels and however grouped into
    calls, give the same [__all__] list. *)
Theorem dunder_all_depends_on_names_only cs1 cs2 :
  cs1 ≠ [] → cs2 ≠ [] →
  requested_names cs1 ≡ₚ requested_names cs2 →
  ∃ body1 body2 names,
    manifest cs1 = inr body1 ∧ manifest cs2 = inr body2 ∧
    dunder_alls body1 = [names] ∧ dunder_alls body2 = [names].
Proof.
  intros H1 H2 P. destruct cs1 as [|c1 cs1]; [done|]. destruct cs2 as [|c2 cs2]; [done|].
  eexists _, _, _. split; [apply manifest_run|]. split; [apply manifest_run|].
  rewrite !dunder_alls_manifest. by rewrite (sort_of_perm _ _ P).
Qed.

(** The same two names in one call and in two calls. *)
Lemma dunder_all_depends_on_names_only_witness :
  ([mk_call ["A"; "B"] "m" 1] ≠ [] ∧
   [mk_call ["B"] "x" 0; mk_call ["A"] "y" 2] ≠ [] ∧
   requested_names [mk_call ["A"; "B"] "m" 1]
     ≡ₚ requested_names [mk_call ["B"] "x" 0; mk_call ["A"] "y" 2])
  ∧ ∃ body1 body2 names,
      manifest [mk_call ["A"; "B"] "m" 1] = inr body1 ∧
      manifest [mk_call ["B"] "x" 0; mk_call ["A"] "y" 2] = inr body2 ∧
      dunder_alls body1 = [names] ∧ dunder_alls body2 = [names].
Proof.
  split; [split; [discriminate | split; [discriminate | apply Permutation_swap]]|].
  apply (dunder_all_depends_on_names_only
           [mk_call ["A"; "B"] "m" 1] [mk_call ["B"] "x" 0; mk_call ["A"] "y" 2]);
    [discriminate | discriminate | apply Permutation_swap].
Defined.

End init_file_runs.

(** ** Serialized variables and the client methods *)

Section serialization_extras.
Import BaseClient Serialized.

Lemma has_model_dict d :
  has_model (VDict d) = existsb (λ kv, has_model kv.2) d.
Proof. simpl. induction d as [|[k x] d IH]; simpl; [done | by rewrite IH]. Qed.

Lemma strip_no_model v : has_model (strip v) = false.
Proof.
  assert (∀ d, Forall (λ kv, has_model (strip kv.2) = false) d →
               has_model (VDict (strip_entries d)) = false) as D.
  { intros d. rewrite has_model_dict.
    induction 1 as [|[k x] d Hx _ IH]; simpl in *; [done|].
    destruct (is_unset x); [done|]. simpl. by rewrite Hx, IH. }
  induction v as [| | | | |items IH|d IH|d IH] using value_nested_ind; try done.
  - rewrite strip_list. simpl. induction IH as [|x items Hx _ IH']; simpl; [done|].
    by rewrite Hx, IH'.
  - rewrite strip_dict. by apply D.
  - rewrite strip_model. by apply D.
Qed.


(** X9: the variables that [execute] sends hold no input record any more,
    at any depth: every record has become a mapping. *)
Theorem sent_variables_hold_no_model (q : string) (vars : dict value) :
  has_model (VDict (variables (execute_payload q vars))) = false.
Proof.
  unfold execute_payload. cbn [variables]. rewrite <- strip_dict. apply strip_no_model.
Qed.



End serialization_extras.

Section client_method_extras.
Import BaseClient Client.

(** [get_data] returns a value exactly for a response that answers with it. *)
Lemma get_data_returns_iff parse response data :
  get_data parse response = inr data ↔ answers parse response data.
Proof.
  unfold get_data, answers. destruct (is_success response); simpl.
  2: { split; [done | by intros [? _]]. }
  destruct (parse (content response)) as [body|].
  2: { split; [done | by intros (_ & body & ? & _)]. }
  destruct (member "data" body) as [d|] eqn:D.
  2: { split; [done | intros (_ & body' & [= <-] & D' & _); congruence]. }
  destruct (member "errors" body) as [[| | | |[|e es]|]|] eqn:E.
  all: split;
    [ intros [= ->]; (split; [done|]); exists body; rewrite D, E; by repeat split
    | intros (_ & body' & [= <-] & D' & N); rewrite D in D'; try congruence ].
  all: try by destruct (N e es).
  all: intros H; try discriminate H.
Qed.

Lemma outcome_of_method {V T} parse response (model_validate : json → V + T) :
  outcome_of parse response model_validate
    (match get_data parse response with
     | inl e => inl (Raised e)
     | inr data =>
         match model_validate data with
         | inl v => inl (Invalid v)
         | inr model => inr model
         end
     end).
Proof.
  unfold outcome_of. destruct (get_data parse response) as [e|data] eqn:G.
  - split; [|split].
    + intros model. split; [done|]. intros (data & A%get_data_returns_iff & _). congruence.
    + intros e'. split; congruence.
    + intros v. split; [done|]. intros (data & A%get_data_returns_iff & _). congruence.
  - pose proof G as A%get_data_returns_iff. split; [|split].
    + intros model. split.
      * destruct (model_validate data) eqn:Mv; [done|]. intros [= <-]. by exists data.
      * intros (data' & A'%get_data_returns_iff & Mv).
        assert (data' = data) as -> by congruence. by rewrite Mv.
    + intros e. split; [by destruct (model_validate data) | done].
    + intros v. split.
      * destruct (model_validate data) eqn:Mv; [|done]. intros [= <-]. by exists data.
      * intros (data' & A'%get_data_returns_iff & Mv).
        assert (data' = data) as -> by congruence. by rewrite Mv.
Qed.

(** X11: each method of the expected client sends one request, with its
    operation text unchanged and an empty mapping of variables, and its
    outcome is decided by the response to that request: the validated model
    when the response answers with data, the error of [get_data] unchanged
    when [get_data] raises, the validation error otherwise.  In particular
    [model_validate] never sees the data of a response that is not 2xx or
    that reports errors. *)
Theorem client_methods_outcome
    (parse : string → option json) (endpoint : payload → Response)
    (V T1 T2 T3 : Type)
    (validate1 : json → V + T1) (validate2 : json → V + T2)
    (validate3 : json → V + T3) :
  outcome_of parse
    (endpoint {| query := QUERY_WITH_FRAGMENT_ON_SUB_INTERFACE; variables := [] |})
    validate1
    (query_with_fragment_on_sub_interface parse endpoint V T1 validate1) ∧
  outcome_of parse
    (endpoint {| query := QUERY_WITH_FRAGMENT_ON_SUB_INTERFACE_WITH_INLINE_FRAGMENT;
                 variables := [] |})
    validate2
    (query_with_fragment_on_sub_interface_with_inline_fragment
       parse endpoint V T2 validate2) ∧
  outcome_of parse
    (endpoint {| query := QUERY_WITH_FRAGMENT_ON_UNION_MEMBER; variables := [] |})
    validate3
    (query_with_fragment_on_union_member parse endpoint V T3 validate3).
Proof. split; [|split]; apply outcome_of_method. Qed.

(** A response that answers with data: the method returns the model that
    [model_validate] builds from it (here the data itself). *)
Example union_member_returns_model :
  query_with_fragment_on_union_member
    (λ _, Some (JObj [("data", JObj [("queryUnion", JObj [("id", JStr "1")])])]))
    (λ _, mk_response 200 "body")
    unit json (λ data, inr data)
  = inr (JObj [("queryUnion", JObj [("id", JStr "1")])]).
Proof. reflexivity. Qed.

(** A response with status 500: the method raises the [HttpError] of
    [get_data]. *)
Example union_member_raises_http_error :
  query_with_fragment_on_union_member
    (λ _, None) (λ _, mk_response 500 "body") unit json (λ data, inr data)
  = inl (Raised (HttpError 500 (mk_response 500 "body"))).
Proof. reflexivity. Qed.

End client_method_extras.
